(** * Camera, coordinate mapping and polynomial tessellation of the graphing calculator

    Shallow embedding of [src/camera.rs] and [src/graphing_engine/geometry.rs].

    Numbers: every [f32] of the source is modelled by an exact real number
    (Stdlib [R]); rounding is not modelled.  Integer types ([u32], [i32],
    [u16], [usize]) are modelled by [Z] with their saturation or range
    checks written out.  A Rust panic ([unwrap] on [None], a failed
    [assert!], [step_by(0)], an arithmetic overflow check) is modelled by
    the result [None]. *)

From Stdlib Require Import Reals Lra Lia ZArith List.
Import ListNotations.

Open Scope R_scope.
Open Scope bool_scope.

Notation "'let*' x ':=' c 'in' f" :=
  (match c with Some x => f | None => None end)
  (at level 200, x name, c at level 100, f at level 200).

(** ** cgmath vectors and matrices *)

Module Vector2.
Record t := vec2 { x : R; y : R }.
End Vector2.

Module Vector3.
Record t := vec3 { x : R; y : R; z : R }.

Definition add (a b : t) : t := vec3 (x a + x b) (y a + y b) (z a + z b).
Definition sub (a b : t) : t := vec3 (x a - x b) (y a - y b) (z a - z b).
(** [v * s] *)
Definition scale (a : t) (s : R) : t := vec3 (x a * s) (y a * s) (z a * s).
Definition dot (a b : t) : R := x a * x b + y a * y b + z a * z b.
Definition cross (a b : t) : t :=
  vec3 (y a * z b - z a * y b) (z a * x b - x a * z b) (x a * y b - y a * x b).
(** [InnerSpace::magnitude]: [sqrt (dot v v)] *)
Definition magnitude (a : t) : R := sqrt (dot a a).
(** [InnerSpace::normalize]: [v.normalize_to(1)] = [v * (1 / v.magnitude())] *)
Definition normalize (a : t) : t := scale a (1 / magnitude a).
End Vector3.

Module Vector4.
Record t := vec4 { x : R; y : R; z : R; w : R }.

Definition add (a b : t) : t :=
  vec4 (x a + x b) (y a + y b) (z a + z b) (w a + w b).
Definition scale (a : t) (s : R) : t := vec4 (x a * s) (y a * s) (z a * s) (w a * s).
Definition get (a : t) (i : nat) : R :=
  match i with 0%nat => x a | 1%nat => y a | 2%nat => z a | _ => w a end.
End Vector4.

(** A [Matrix4] is stored by columns [x], [y], [z], [w], as in cgmath. *)
Module Matrix4.
Record t := from_cols { x : Vector4.t; y : Vector4.t; z : Vector4.t; w : Vector4.t }.

(** [Matrix4::new] takes its sixteen entries column by column. *)
Definition new (c0r0 c0r1 c0r2 c0r3 c1r0 c1r1 c1r2 c1r3
                c2r0 c2r1 c2r2 c2r3 c3r0 c3r1 c3r2 c3r3 : R) : t :=
  from_cols (Vector4.vec4 c0r0 c0r1 c0r2 c0r3) (Vector4.vec4 c1r0 c1r1 c1r2 c1r3)
            (Vector4.vec4 c2r0 c2r1 c2r2 c2r3) (Vector4.vec4 c3r0 c3r1 c3r2 c3r3).

Definition col (m : t) (c : nat) : Vector4.t :=
  match c with 0%nat => x m | 1%nat => y m | 2%nat => z m | _ => w m end.

(** [m[c][r]] *)
Definition get (m : t) (c r : nat) : R := Vector4.get (col m c) r.

Definition from_fn (f : nat -> nat -> R) : t :=
  new (f 0 0)%nat (f 0 1)%nat (f 0 2)%nat (f 0 3)%nat
      (f 1 0)%nat (f 1 1)%nat (f 1 2)%nat (f 1 3)%nat
      (f 2 0)%nat (f 2 1)%nat (f 2 2)%nat (f 2 3)%nat
      (f 3 0)%nat (f 3 1)%nat (f 3 2)%nat (f 3 3)%nat.

(** [m * v]: the combination of the columns weighted by [v]. *)
Definition mul_vec (m : t) (v : Vector4.t) : Vector4.t :=
  Vector4.add (Vector4.add (Vector4.scale (x m) (Vector4.x v)) (Vector4.scale (y m) (Vector4.y v)))
              (Vector4.add (Vector4.scale (z m) (Vector4.z v)) (Vector4.scale (w m) (Vector4.w v))).

(** [a * b]: column [j] of the product is [a] applied to column [j] of [b]. *)
Definition mul (a b : t) : t :=
  from_cols (mul_vec a (x b)) (mul_vec a (y b)) (mul_vec a (z b)) (mul_vec a (w b)).

Definition others (k : nat) : list nat := filter (fun i => negb (Nat.eqb i k)) [0; 1; 2; 3]%nat.

(** Determinant of the 3x3 minor left after removing column [c] and row [r]. *)
Definition minor_det (m : t) (c r : nat) : R :=
  match others c, others r with
  | [c0; c1; c2], [r0; r1; r2] =>
      get m c0 r0 * (get m c1 r1 * get m c2 r2 - get m c2 r1 * get m c1 r2)
      - get m c1 r0 * (get m c0 r1 * get m c2 r2 - get m c2 r1 * get m c0 r2)
      + get m c2 r0 * (get m c0 r1 * get m c1 r2 - get m c1 r1 * get m c0 r2)
  | _, _ => 0
  end.

Definition cofactor (m : t) (c r : nat) : R :=
  (if Nat.even (c + r) then 1 else -1) * minor_det m c r.

(** Laplace expansion along row 0. *)
Definition determinant (m : t) : R :=
  get m 0 0 * cofactor m 0 0 + get m 1 0 * cofactor m 1 0
  + get m 2 0 * cofactor m 2 0 + get m 3 0 * cofactor m 3 0.

(** [SquareMatrix::invert]: [None] when the determinant is zero, otherwise
    the adjugate divided by the determinant. *)
Definition invert (m : t) : option t :=
  let det := determinant m in
  if Req_dec_T det 0 then None
  else Some (from_fn (fun c r => cofactor m r c / det)).
End Matrix4.

(** [cgmath::Matrix4::look_to_rh] and [look_at_rh]. *)
Definition look_to_rh (eye dir up : Vector3.t) : Matrix4.t :=
  let f := Vector3.normalize dir in
  let s := Vector3.normalize (Vector3.cross f up) in
  let u := Vector3.cross s f in
  Matrix4.new
    (Vector3.x s) (Vector3.x u) (- Vector3.x f) 0
    (Vector3.y s) (Vector3.y u) (- Vector3.y f) 0
    (Vector3.z s) (Vector3.z u) (- Vector3.z f) 0
    (- Vector3.dot eye s) (- Vector3.dot eye u) (Vector3.dot eye f) 1.

Definition look_at_rh (eye center up : Vector3.t) : Matrix4.t :=
  look_to_rh eye (Vector3.sub center eye) up.

(** [cgmath::perspective(Deg(fovy), aspect, near, far)], through
    [PerspectiveFov] and its conversion to [Matrix4], whose [assert!]s
    panic on a field of view outside (0, half turn), a zero aspect ratio,
    a non-positive plane distance or [far <= near]. *)
Definition perspective (fovy_deg aspect near far : R) : option Matrix4.t :=
  let fovy := fovy_deg * (PI / 180) in
  if Rgt_dec fovy 0 then
  if Rlt_dec fovy PI then
  if Req_dec_T (Rabs aspect) 0 then None else
  if Rgt_dec near 0 then
  if Rgt_dec far 0 then
  if Rgt_dec far near then
    let f := 1 / tan (fovy / 2) in
    Some (Matrix4.new
      (f / aspect) 0 0 0
      0 f 0 0
      0 0 ((far + near) / (near - far)) (-1)
      0 0 ((2 * far * near) / (near - far)) 0)
  else None else None else None else None else None.

(** ** camera.rs *)

Definition OPENGL_TO_WGPU_MATRIX : Matrix4.t :=
  Matrix4.new
    1 0 0 0
    0 1 0 0
    0 0 0.5 0.5
    0 0 0 1.

(** [PhysicalSize<u32>] *)
Record PhysicalSize := { width : Z; height : Z }.

(** [PhysicalPosition<f32>] *)
Record PhysicalPosition := { pos_x : R; pos_y : R }.

Definition calculate_screen_space (pos : Vector2.t) (size : PhysicalSize) : Vector2.t :=
  let x := (IZR (width size) * (Vector2.x pos + 1)) / 2 in
  let y := (IZR (height size) * (Vector2.y pos - 1)) / -2 in
  Vector2.vec2 x y.

Definition normalise_screen_space (pos : Vector2.t) (size : PhysicalSize) : Vector2.t :=
  let x := ((2 / IZR (width size)) * Vector2.x pos) - 1 in
  let y := ((-2 / IZR (height size)) * Vector2.y pos) + 1 in
  Vector2.vec2 x y.

Record Camera := {
  eye : Vector3.t;
  target : Vector3.t;
  up : Vector3.t;
  aspect : R;
  fovy : R;
  znear : R;
  zfar : R }.

Definition set_eye_target (cam : Camera) (e t : Vector3.t) : Camera :=
  {| eye := e; target := t; up := up cam; aspect := aspect cam;
     fovy := fovy cam; znear := znear cam; zfar := zfar cam |}.

Definition build_view_projection_matrix (cam : Camera) : option Matrix4.t :=
  let view := look_at_rh (eye cam) (target cam) (up cam) in
  let* proj := perspective (fovy cam) (aspect cam) (znear cam) (zfar cam) in
  Some (Matrix4.mul (Matrix4.mul OPENGL_TO_WGPU_MATRIX proj) view).

Definition build_proj_matrix (cam : Camera) : option Matrix4.t :=
  let* proj := perspective (fovy cam) (aspect cam) (znear cam) (zfar cam) in
  Some (Matrix4.mul OPENGL_TO_WGPU_MATRIX proj).

Definition world_to_screen_space (cam : Camera) (pos : Vector3.t) (size : PhysicalSize)
  : option Vector2.t :=
  let* vp := build_view_projection_matrix cam in
  let clip_pos := Matrix4.mul_vec vp
    (Vector4.vec4 (Vector3.x pos) (Vector3.y pos) (Vector3.z pos) 1) in
  let normal_pos := Vector2.vec2 (Vector4.x clip_pos / Vector4.w clip_pos)
                                 (Vector4.y clip_pos / Vector4.w clip_pos) in
  Some (calculate_screen_space normal_pos size).

Definition screen_to_view_space (cam : Camera) (pos : Vector2.t) (size : PhysicalSize)
  : option Vector2.t :=
  let normal_pos := normalise_screen_space pos size in
  let* proj := build_proj_matrix cam in
  let* inv := Matrix4.invert proj in
  let p := Matrix4.mul_vec inv (Vector4.vec4 (Vector2.x normal_pos) (Vector2.y normal_pos) 0 1) in
  Some (Vector2.vec2 (Vector4.x p * 1.5) (Vector4.y p * 1.5)).

(** [f32::signum]: [1] for zero and positive numbers, [-1] for negative ones. *)
Definition signum (v : R) : R := if Rlt_dec v 0 then -1 else 1.

Definition adjust_pan_with_cursor_position (cam : Camera) (cursor_location : PhysicalPosition)
  (origin : Vector2.t) (modifier : R) (size : PhysicalSize) : option Camera :=
  let* cursor_view := screen_to_view_space cam
       (Vector2.vec2 (pos_x cursor_location) (pos_y cursor_location)) size in
  let* origin_view := screen_to_view_space cam origin size in
  let distance := Vector2.vec2 (Vector2.x cursor_view - Vector2.x origin_view)
                               (Vector2.y cursor_view - Vector2.y origin_view) in
  let change := Vector3.vec3 (Vector2.x distance * Vector3.z (eye cam))
                             (Vector2.y distance * Vector3.z (eye cam)) 0 in
  let modnew :=
    if Rge_dec (Rabs modifier / 4)
               (sqrt (Rabs (Vector2.x distance) ^ 2 * Rabs (Vector2.y distance) ^ 2))
    then signum modifier else modifier in
  Some (set_eye_target cam (Vector3.add (eye cam) (Vector3.scale change modnew))
                           (Vector3.add (target cam) (Vector3.scale change modnew))).

(** *** Input events (the [winit] types [process_events] matches on) *)

Inductive ElementState := Pressed | Released.

Inductive KeyCode :=
| KeyW | ArrowUp | KeyS | ArrowDown | KeyA | ArrowLeft | KeyD | ArrowRight
| OtherKey (code : nat).

Inductive PhysicalKey := Code (k : KeyCode) | Unidentified.

Inductive MouseButton := Left | Right | Middle | Back | Forward | OtherButton (n : Z).

(** [PixelDelta] carries a [PhysicalPosition<f64>]; only its [y] is read. *)
Inductive MouseScrollDelta :=
| LineDelta (dx dy : R)
| PixelDelta (px py : R).

Inductive WindowEvent :=
| KeyboardInput (state : ElementState) (physical_key : PhysicalKey)
| MouseWheel (delta : MouseScrollDelta)
| CursorMoved (px py : R)
| MouseInput (state : ElementState) (button : MouseButton)
| OtherEvent.

Record CameraController := {
  speed : R;
  cursor_location : PhysicalPosition;
  mouse_clicked_at : option PhysicalPosition;
  is_up_pressed : bool;
  is_down_pressed : bool;
  is_left_pressed : bool;
  is_right_pressed : bool;
  is_mouse_pressed : bool;
  is_mouse_released : bool;
  scroll : R }.

Module Setters.
Definition mk sp cl mca u d l r mp mr sc : CameraController :=
  {| speed := sp; cursor_location := cl; mouse_clicked_at := mca;
     is_up_pressed := u; is_down_pressed := d; is_left_pressed := l;
     is_right_pressed := r; is_mouse_pressed := mp; is_mouse_released := mr;
     scroll := sc |}.
Section S.
Variable c : CameraController.
Definition set_scroll v := mk (speed c) (cursor_location c) (mouse_clicked_at c)
  (is_up_pressed c) (is_down_pressed c) (is_left_pressed c) (is_right_pressed c)
  (is_mouse_pressed c) (is_mouse_released c) v.
Definition set_cursor v := mk (speed c) v (mouse_clicked_at c)
  (is_up_pressed c) (is_down_pressed c) (is_left_pressed c) (is_right_pressed c)
  (is_mouse_pressed c) (is_mouse_released c) (scroll c).
Definition set_clicked_at v := mk (speed c) (cursor_location c) v
  (is_up_pressed c) (is_down_pressed c) (is_left_pressed c) (is_right_pressed c)
  (is_mouse_pressed c) (is_mouse_released c) (scroll c).
Definition set_up v := mk (speed c) (cursor_location c) (mouse_clicked_at c)
  v (is_down_pressed c) (is_left_pressed c) (is_right_pressed c)
  (is_mouse_pressed c) (is_mouse_released c) (scroll c).
Definition set_down v := mk (speed c) (cursor_location c) (mouse_clicked_at c)
  (is_up_pressed c) v (is_left_pressed c) (is_right_pressed c)
  (is_mouse_pressed c) (is_mouse_released c) (scroll c).
Definition set_left v := mk (speed c) (cursor_location c) (mouse_clicked_at c)
  (is_up_pressed c) (is_down_pressed c) v (is_right_pressed c)
  (is_mouse_pressed c) (is_mouse_released c) (scroll c).
Definition set_right v := mk (speed c) (cursor_location c) (mouse_clicked_at c)
  (is_up_pressed c) (is_down_pressed c) (is_left_pressed c) v
  (is_mouse_pressed c) (is_mouse_released c) (scroll c).
Definition set_mouse pressed released := mk (speed c) (cursor_location c)
  (mouse_clicked_at c) (is_up_pressed c) (is_down_pressed c) (is_left_pressed c)
  (is_right_pressed c) pressed released (scroll c).
End S.
End Setters.
Import Setters.

Definition CameraController_new (sp : R) : CameraController :=
  mk sp {| pos_x := 0; pos_y := 0 |} None false false false false false true 0.

Definition element_state_eqb (a b : ElementState) : bool :=
  match a, b with Pressed, Pressed | Released, Released => true | _, _ => false end.

(** [CameraController::process_events]: the updated controller and whether
    the event was consumed. *)
Definition process_events (c : CameraController) (event : WindowEvent)
  : CameraController * bool :=
  match event with
  | KeyboardInput state (Code keycode) =>
      let is_pressed := element_state_eqb state Pressed in
      match keycode with
      | KeyW | ArrowUp => (set_up c is_pressed, true)
      | KeyS | ArrowDown => (set_down c is_pressed, true)
      | KeyA | ArrowLeft => (set_left c is_pressed, true)
      | KeyD | ArrowRight => (set_right c is_pressed, true)
      | _ => (c, false)
      end
  | KeyboardInput _ Unidentified => (c, false)
  | MouseWheel (LineDelta _ y) => (set_scroll c y, true)
  | MouseWheel (PixelDelta _ y) => (set_scroll c y, true)
  | CursorMoved x y => (set_cursor c {| pos_x := x; pos_y := y |}, true)
  | MouseInput state button =>
      let is_pressed := element_state_eqb state Pressed in
      let is_released := element_state_eqb state Released in
      match button with
      | Left => (set_mouse c is_pressed is_released, true)
      | _ => (c, true)
      end
  | OtherEvent => (c, false)
  end.

(** [f32 as u32]: truncation toward zero, saturating at [0] and [u32::MAX]. *)
Definition f32_as_u32 (v : R) : Z :=
  if Rle_dec v 0 then 0%Z else Z.min (Int_part v) (2 ^ 32 - 1)%Z.

(** [u32::checked_next_power_of_two]: the least power of two [>= n], or
    [None] when it does not fit in a [u32]. *)
Definition checked_next_power_of_two (n : Z) : option Z :=
  if (n <=? 2 ^ 31)%Z then Some (2 ^ Z.log2_up n)%Z else None.

Definition zoom_change (c : CameraController) (cam : Camera) : Vector3.t :=
  let forward := Vector3.sub (target cam) (eye cam) in
  let forward_norm := Vector3.normalize forward in
  let forward_mag := Vector3.magnitude forward in
  Vector3.scale (Vector3.scale (Vector3.scale forward_norm forward_mag) (speed c)) (scroll c).

Definition not_at_scroll_min (c : CameraController) (cam : Camera) : bool :=
  (if Rgt_dec (scroll c) 0 then true else false)
  && (if Rge_dec (Vector3.z (eye cam)) 1 then true else false).

Definition not_at_scroll_max (c : CameraController) (cam : Camera) : bool :=
  let next_power_of_two :=
    checked_next_power_of_two (f32_as_u32 (Vector3.z (eye cam) + Vector3.z (zoom_change c cam))) in
  (if Rlt_dec (scroll c) 0 then true else false)
  && match next_power_of_two with Some _ => true | None => false end.

(** Step 1 of [update_camera]: the cursor-anchored zoom. *)
Definition zoom_step (c : CameraController) (cam : Camera) (size : PhysicalSize)
  : option (CameraController * Camera) :=
  if not_at_scroll_min c cam || not_at_scroll_max c cam then
    let cam1 := set_eye_target cam (Vector3.add (eye cam) (zoom_change c cam)) (target cam) in
    let* origin := world_to_screen_space cam1 (Vector3.vec3 0 0 0) size in
    let* cam2 := adjust_pan_with_cursor_position cam1 (cursor_location c) origin
                   (scroll c * 0.25) size in
    Some (set_scroll c 0, cam2)
  else Some (c, cam).

(** Step 2: the drag pan. *)
Definition drag_step (c : CameraController) (cam : Camera) (size : PhysicalSize)
  : option (CameraController * Camera) :=
  let* r :=
    if is_mouse_pressed c then
      match mouse_clicked_at c with
      | None => Some (set_clicked_at c (Some (cursor_location c)), cam)
      | Some at_ =>
          let mouse_clicked_at_pos := Vector2.vec2 (pos_x at_) (pos_y at_) in
          let* cam' := adjust_pan_with_cursor_position cam (cursor_location c)
                         mouse_clicked_at_pos (-1) size in
          Some (set_clicked_at c (Some (cursor_location c)), cam')
      end
    else Some (c, cam) in
  let '(c1, cam1) := r in
  if is_mouse_released c1 then Some (set_clicked_at c1 None, cam1) else Some (c1, cam1).

Definition shift (v : Vector3.t) (dx dy : R) : Vector3.t :=
  Vector3.vec3 (Vector3.x v + dx) (Vector3.y v + dy) (Vector3.z v).

(** Step 3: the keyboard pan, one flag after the other. *)
Definition key_step (c : CameraController) (cam : Camera) : Camera :=
  let pan cam (on : bool) dx dy :=
    if on then set_eye_target cam (shift (eye cam) dx dy) (shift (target cam) dx dy) else cam in
  let cam := pan cam (is_up_pressed c) 0 (speed c * Vector3.z (eye cam)) in
  let cam := pan cam (is_down_pressed c) 0 (- (speed c * Vector3.z (eye cam))) in
  let cam := pan cam (is_left_pressed c) (- (speed c * Vector3.z (eye cam))) 0 in
  let cam := pan cam (is_right_pressed c) (speed c * Vector3.z (eye cam)) 0 in
  cam.

(** [CameraController::update_camera]: the new controller and camera. *)
Definition update_camera (c : CameraController) (cam : Camera) (size : PhysicalSize)
  : option (CameraController * Camera) :=
  let* r1 := zoom_step c cam size in
  let '(c1, cam1) := r1 in
  let* r2 := drag_step c1 cam1 size in
  let '(c2, cam2) := r2 in
  Some (c2, key_step c2 cam2).

(** ** geometry.rs: the polynomial tessellator *)

(** [f32::atan2(y, x)]: the angle of the point [(x, y)], in [(-PI, PI]]. *)
Definition atan2 (y x : R) : R :=
  if Rgt_dec x 0 then atan (y / x)
  else if Rlt_dec x 0 then
    (if Rge_dec y 0 then atan (y / x) + PI else atan (y / x) - PI)
  else if Rgt_dec y 0 then PI / 2
  else if Rlt_dec y 0 then - (PI / 2)
  else 0.

(** [Vertex { position: [f32; 3] }] *)
Record Vertex := { position : R * R * R }.

Definition square_points (p1 p2 : Vector2.t) (width : R) (initial : bool) : list Vertex :=
  let theta := atan2 (Vector2.x p1 - Vector2.x p2) (Vector2.y p1 - Vector2.y p2) in
  let delta_x := cos theta * width in
  let delta_y := sin theta * width in
  if initial then
    [ {| position := (Vector2.x p1 + delta_x, Vector2.y p1 - delta_y, 0) |};
      {| position := (Vector2.x p1 - delta_x, Vector2.y p1 + delta_y, 0) |} ]
  else
    [ {| position := (Vector2.x p2 + delta_x, Vector2.y p2 - delta_y, 0) |};
      {| position := (Vector2.x p2 - delta_x, Vector2.y p2 + delta_y, 0) |} ].

(** [coeffs.iter().enumerate().map(|(i, coeff)| coeff * x.powi(i)).sum()] *)
Definition polynomial_equation (x : R) (coeffs : list R) : R :=
  fold_left Rplus
    (map (fun '(i, coeff) => coeff * x ^ i) (combine (seq 0 (length coeffs)) coeffs)) 0.

(** The fields of [Line] the tessellator reads and writes (its GPU buffers
    and bind group are left out). *)
Record Line := {
  line_width : R;
  coeffs : list R;
  vertices : list Vertex;
  indices : list Z }.

Definition set_mesh (l : Line) (vs : list Vertex) (is : list Z) : Line :=
  {| line_width := line_width l; coeffs := coeffs l; vertices := vs; indices := is |}.

Open Scope Z_scope.

Definition i32_MIN : Z := - 2 ^ 31.
Definition i32_MAX : Z := 2 ^ 31 - 1.
Definition u16_MAX : Z := 2 ^ 16 - 1.

Definition sat_i32 (v : Z) : Z := Z.max i32_MIN (Z.min i32_MAX v).

(** [i32::abs] panics on [i32::MIN] (overflow check). *)
Definition i32_abs (v : Z) : option Z := if v =? i32_MIN then None else Some (Z.abs v).
Definition i32_saturating_abs (v : Z) : Z := sat_i32 (Z.abs v).
Definition i32_saturating_add (a b : Z) : Z := sat_i32 (a + b).
Definition i32_saturating_mul (a b : Z) : Z := sat_i32 (a * b).

(** Checked [u16] arithmetic: an overflow panics. *)
Definition u16_add (a b : Z) : option Z := if a + b <=? u16_MAX then Some (a + b) else None.
Definition u16_mul (a b : Z) : option Z := if a * b <=? u16_MAX then Some (a * b) else None.
(** [i as u16]: truncation to the low 16 bits. *)
Definition usize_as_u16 (i : nat) : Z := Z.of_nat i mod 2 ^ 16.

(** [(s as f32 / 40.0).ceil() as usize] for the non-negative integer [s]. *)
Definition step_of (s : Z) : Z := if s <=? 0 then 0 else (s + 39) / 40.

(** [(a..b).step_by(step)]: [a], [a + step], ... below [b]; [step_by(0)] panics. *)
Definition step_by_range (a b step : Z) : option (list Z) :=
  if step =? 0 then None
  else
    let n := if a <? b then Z.to_nat ((b - a + step - 1) / step) else 0%nat in
    Some (map (fun k => a + Z.of_nat k * step) (seq 0 n)).

Definition make_polynomial_unit : Z := 20.

(** The [num] values the loop of [make_polynomial] runs over. *)
Definition sample_range (x_min x_max : Z) : option (list Z) :=
  let* ax := i32_abs x_max in
  let step_size := step_of (i32_saturating_add ax (i32_saturating_abs x_min)) in
  step_by_range (i32_saturating_mul x_min make_polynomial_unit) (i32_saturating_mul x_max make_polynomial_unit) step_size.

Close Scope Z_scope.

(** [Line::next] *)
Definition next (l : Line) (offset : Z) (p1 p2 : Vector2.t) : option Line :=
  let vs := vertices l ++ square_points p1 p2 (line_width l) false in
  let* o1 := u16_add offset 1 in
  let* o2 := u16_add offset 2 in
  let* o3 := u16_add offset 3 in
  Some (set_mesh l vs (indices l ++ [offset; o1; o3; o2; offset; o3])).

(** The body of the loop of [make_polynomial], over [(i, num)]. *)
Fixpoint polynomial_loop (l : Line) (items : list (nat * Z)) : option Line :=
  match items with
  | [] => Some l
  | (i, num) :: rest =>
      let x1 := IZR num / IZR make_polynomial_unit in
      let y1 := polynomial_equation x1 (coeffs l) in
      let p1 := Vector2.vec2 x1 y1 in
      let x2 := (IZR num + 1) / IZR make_polynomial_unit in
      let y2 := polynomial_equation x2 (coeffs l) in
      let p2 := Vector2.vec2 x2 y2 in
      let l1 := if Nat.eqb i 0 then
                  set_mesh l (vertices l ++ square_points p1 p2 (line_width l) true) (indices l)
                else l in
      let* offset := u16_mul (usize_as_u16 i) 2 in
      let* l2 := next l1 offset p1 p2 in
      polynomial_loop l2 rest
  end.

Definition enumerate {A} (xs : list A) : list (nat * A) := combine (seq 0 (length xs)) xs.

(** [Line::make_polynomial] *)
Definition make_polynomial (l : Line) (x_min x_max : Z) : option Line :=
  let l0 := set_mesh l [] [] in
  let* nums := sample_range x_min x_max in
  polynomial_loop l0 (enumerate nums).

(** ** geometry.rs: the circle mesh of the point markers *)

Open Scope Z_scope.

(** [a..b] over integers. *)
Definition zrange (a b : Z) : list Z := map (fun k => a + Z.of_nat k) (seq 0 (Z.to_nat (b - a))).

Close Scope Z_scope.

Record Circle := {
  radius : R;
  segments : Z;
  circle_vertices : list Vertex;
  circle_indices : list Z }.

(** The fan loop [for i in 1..segments { indices.append([0, i, i+1]) }], with
    the checked [u16] addition [i + 1]. *)
Fixpoint fan_indices (is : list Z) : option (list Z) :=
  match is with
  | [] => Some []
  | i :: rest =>
      let* i1 := u16_add i 1 in
      let* t := fan_indices rest in
      Some ([0; i; i1]%Z ++ t)
  end.

(** [Circle::new(radius, segments)] for a [u16] [segments]. *)
Definition Circle_new (radius : R) (segments : Z) : option Circle :=
  let vertices := {| position := (0, 0, 0) |} ::
    map (fun s =>
           let current_seg := (2 * PI) * (IZR s / IZR segments) in
           {| position := (radius * cos current_seg, radius * sin current_seg, 0) |})
        (zrange 0 segments) in
  let* fan := fan_indices (zrange 1 segments) in
  Some {| radius := radius; segments := segments; circle_vertices := vertices;
          circle_indices := [0; segments; 1]%Z ++ fan |}.

(** ** geometry.rs: instances *)

Module Color.
Record t := mk { r : R; g : R; b : R; a : R }.
End Color.













(** ** Callers of the camera and the tessellator *)

(** [f32 as i32]: truncation toward zero, saturating at [i32::MIN] and [i32::MAX]. *)
Definition f32_as_i32 (v : R) : Z :=
  if Rge_dec v 0 then Z.min (Int_part v) i32_MAX
  else Z.max (- Int_part (- v)) i32_MIN.

Definition set_line_width (l : Line) (w : R) : Line :=
  {| line_width := w; coeffs := coeffs l; vertices := vertices l; indices := indices l |}.

(** The loop of [EquationPipeline::update_equations] over its lines (the
    buffer upload is left out). *)
Fixpoint update_lines (lines : list Line) (width : R) (x_min x_max : Z) : option (list Line) :=
  match lines with
  | [] => Some []
  | line :: rest =>
      let* line' := make_polynomial (set_line_width line width) x_min x_max in
      let* rest' := update_lines rest width x_min x_max in
      Some (line' :: rest')
  end.

(** [EquationPipeline::update_equations] *)
Definition update_equations (lines : list Line) (cam : Camera) : option (list Line) :=
  let width := 0.004 * Vector3.z (eye cam) in
  let range := Vector3.z (eye cam) * 1.5 in
  let x_min := - range + Vector3.x (eye cam) in
  let x_max := range + Vector3.x (eye cam) in
  update_lines lines width (f32_as_i32 x_min) (f32_as_i32 x_max).



(** ** Reference definitions taken from the specification *)

Fixpoint sum_below (f : nat -> R) (n : nat) : R :=
  match n with O => 0 | S k => sum_below f k + f k end.

(** Spec 4.5: [evaluate(x, coefficients)] is [sum coefficients[i] * x^i]. *)
Definition polynomial_value (x : R) (cs : list R) : R :=
  sum_below (fun i => nth i cs 0 * x ^ i) (length cs).

(** The two triangles bridging vertex pair [i] and vertex pair [i + 1]. *)
Definition quad (i : nat) : list Z :=
  let o := Z.of_nat (2 * i) in [o; o + 1; o + 3; o + 2; o; o + 3]%Z.

(** Whether the zoom of [update_camera] is applied. *)
Definition zoom_applies (c : CameraController) (cam : Camera) : bool :=
  not_at_scroll_min c cam || not_at_scroll_max c cam.

(** Moving eye and target by the same vector, as every pan of the camera
    controller does. *)
Definition pan_by (cam : Camera) (v : Vector3.t) : Camera :=
  set_eye_target cam (Vector3.add (eye cam) v) (Vector3.add (target cam) v).

(** The camera after the zoom's move of the eye, before its pan. *)
Definition zoomed (c : CameraController) (cam : Camera) : Camera :=
  if zoom_applies c cam
  then set_eye_target cam (Vector3.add (eye cam) (zoom_change c cam)) (target cam)
  else cam.

(** The mouse anchor [update_camera] leaves: cleared on release, the cursor
    while the button is held. *)
Definition clicked_after (c : CameraController) : option PhysicalPosition :=
  if is_mouse_released c then None
  else if is_mouse_pressed c then Some (cursor_location c)
  else mouse_clicked_at c.

(** A key flag as the number [0] or [1]. *)
Definition flag (b : bool) : R := if b then 1 else 0.

(** ** Concrete inputs: the camera and controller [State::new] creates *)

Definition size0 : PhysicalSize := {| width := 800; height := 600 |}.

Definition camera0 : Camera :=
  {| eye := Vector3.vec3 0 0 4; target := Vector3.vec3 0 0 0; up := Vector3.vec3 0 1 0;
     aspect := 800 / 600; fovy := 45; znear := 0.1; zfar := 100 |}.

Definition controller0 : CameraController := CameraController_new 0.1.

Definition line0 : Line :=
  {| line_width := 0.05; coeffs := [0; 1]; vertices := []; indices := [] |}.

(** The controller after a wheel event of [dy] lines. *)
Definition controller_scrolled (dy : R) : CameraController :=
  fst (process_events controller0 (MouseWheel (LineDelta 0 dy))).

Definition camera_at (z : R) : Camera :=
  set_eye_target camera0 (Vector3.vec3 0 0 z) (Vector3.vec3 0 0 0).


(** * Properties *)

(** ** Coordinate mapper *)

(** Claim C7: the NDC-to-pixel mapping sends the center (0,0) to (w/2, h/2),
    the corner (1,-1) to (w,h) and the corner (-1,1) to (0,0). *)
Theorem calculate_screen_space_fixed_points (size : PhysicalSize) :
  let w := IZR (width size) in
  let h := IZR (height size) in
  calculate_screen_space (Vector2.vec2 0 0) size = Vector2.vec2 (w / 2) (h / 2) /\
  calculate_screen_space (Vector2.vec2 1 (-1)) size = Vector2.vec2 w h /\
  calculate_screen_space (Vector2.vec2 (-1) 1) size = Vector2.vec2 0 0.
Proof.
  cbv zeta; unfold calculate_screen_space; cbn [Vector2.x Vector2.y].
  repeat split; f_equal; field.
Qed.

(** Claim C4: for a viewport with positive width and height, normalising the
    screen-space image of a point gives the point back. *)
Theorem normalise_calculate_screen_space (pos : Vector2.t) (size : PhysicalSize) :
  (0 < width size)%Z -> (0 < height size)%Z ->
  normalise_screen_space (calculate_screen_space pos size) size = pos.
Proof.
  intros Hw Hh.
  apply IZR_lt in Hw; apply IZR_lt in Hh.
  destruct pos as [px py].
  unfold normalise_screen_space, calculate_screen_space; cbn [Vector2.x Vector2.y].
  f_equal; field; lra.
Qed.

Lemma normalise_calculate_screen_space_witness :
  (0 < width size0)%Z /\ (0 < height size0)%Z /\
  normalise_screen_space (calculate_screen_space (Vector2.vec2 (1 / 2) (-1)) size0) size0
  = Vector2.vec2 (1 / 2) (-1).
Proof.
  split; [reflexivity | split; [reflexivity |]].
  apply normalise_calculate_screen_space; reflexivity.
Defined.

(** ** Polynomial evaluation *)

Lemma sum_below_shift (f : nat -> R) (n : nat) :
  sum_below f (S n) = f O + sum_below (fun i => f (S i)) n.
Proof.
  induction n as [|n IH]; cbn [sum_below] in *; [ring|].
  rewrite IH; ring.
Qed.

Lemma sum_below_ext (f g : nat -> R) (n : nat) :
  (forall i, (i < n)%nat -> f i = g i) -> sum_below f n = sum_below g n.
Proof.
  induction n as [|n IH]; intros H; cbn [sum_below]; [reflexivity|].
  rewrite IH by (intros; apply H; lia). rewrite (H n) by lia. reflexivity.
Qed.

Lemma polynomial_fold (x : R) (cs : list R) (k : nat) (acc : R) :
  fold_left Rplus (map (fun '(i, coeff) => coeff * x ^ i) (combine (seq k (length cs)) cs)) acc
  = acc + sum_below (fun i => nth i cs 0 * x ^ (k + i)) (length cs).
Proof.
  revert k acc; induction cs as [|c cs IH]; intros k acc; cbn [length seq combine map fold_left].
  - cbn [sum_below]; ring.
  - rewrite IH, sum_below_shift. cbn [nth]. rewrite Nat.add_0_r.
    rewrite (sum_below_ext (fun i => nth i cs 0 * x ^ (S k + i))
                           (fun i => nth i cs 0 * x ^ (k + S i))).
    + ring.
    + intros i _; rewrite Nat.add_succ_r; reflexivity.
Qed.

(** Claim C5: [polynomial_equation] returns the sum of [coeffs[i] * x^i]
    (coefficients by ascending power); it is 0 on the empty list, 29 on
    [-1; 3; 4; 1] at 2 and 2 on [0; 1] at 2. *)
Theorem polynomial_equation_sum (x : R) (cs : list R) :
  polynomial_equation x cs = polynomial_value x cs /\
  polynomial_equation x [] = 0 /\
  polynomial_equation 2 [-1; 3; 4; 1] = 29 /\
  polynomial_equation 2 [0; 1] = 2.
Proof.
  unfold polynomial_equation, polynomial_value.
  rewrite polynomial_fold; cbn -[pow].
  split; [ring | split; [ring | split; ring]].
Qed.

(** ** Ribbon vertices *)

(** Claim C8: the two vertices [square_points] emits are the center ([p1]
    when [initial], [p2] otherwise) plus and minus
    [(cos theta * width, - sin theta * width)], with
    [theta = atan2(p1.x - p2.x, p1.y - p2.y)] and [z = 0]. *)
Theorem square_points_offsets (p1 p2 : Vector2.t) (width : R) (initial : bool) :
  let theta := atan2 (Vector2.x p1 - Vector2.x p2) (Vector2.y p1 - Vector2.y p2) in
  let ox := cos theta * width in
  let oy := - (sin theta * width) in
  let c := if initial then p1 else p2 in
  square_points p1 p2 width initial =
  [ {| position := (Vector2.x c + ox, Vector2.y c + oy, 0) |};
    {| position := (Vector2.x c - ox, Vector2.y c - oy, 0) |} ].
Proof.
  cbv zeta; unfold square_points.
  destruct initial; unfold Rminus; rewrite Ropp_involutive; reflexivity.
Qed.

(** ** Event consumption *)

(** Claim C10: a press or release of any mouse button other than the left one
    is consumed and leaves the controller unchanged. *)
Theorem process_events_other_button (c : CameraController) (state : ElementState)
  (button : MouseButton) :
  button <> Left -> process_events c (MouseInput state button) = (c, true).
Proof.
  intros H; destruct button; cbn; congruence.
Qed.

Lemma process_events_other_button_witness :
  Right <> Left /\ process_events controller0 (MouseInput Pressed Right) = (controller0, true).
Proof.
  split; [discriminate|].
  apply process_events_other_button; discriminate.
Defined.

(** ** The projection matrix is invertible, so the pan never panics *)

Ltac nonzero :=
  repeat match goal with
  | |- _ / _ <> 0 => unfold Rdiv
  | |- _ * _ <> 0 => apply Rmult_integral_contrapositive_currified
  | |- / _ <> 0 => apply Rinv_neq_0_compat
  end; try assumption; try (let E := fresh in intro E; lra).

Lemma determinant_wgpu_perspective (a f p q : R) :
  Matrix4.determinant
    (Matrix4.mul OPENGL_TO_WGPU_MATRIX (Matrix4.new a 0 0 0 0 f 0 0 0 0 p (-1) 0 0 q 0))
  = a * f * q / 2.
Proof.
  unfold Matrix4.determinant, Matrix4.cofactor, Matrix4.minor_det, Matrix4.get,
    Matrix4.mul, Matrix4.mul_vec, OPENGL_TO_WGPU_MATRIX, Matrix4.new, Matrix4.others.
  cbn [Matrix4.x Matrix4.y Matrix4.z Matrix4.w Vector4.x Vector4.y Vector4.z Vector4.w
       Vector4.get Matrix4.col Vector4.add Vector4.scale Nat.even Nat.add filter Nat.eqb negb].
  replace 0.5 with (/ 2) by lra.
  field.
Qed.

Definition perspective_ok (cam : Camera) : Prop :=
  exists m, perspective (fovy cam) (aspect cam) (znear cam) (zfar cam) = Some m.

Lemma perspective_invertible (fd asp n f : R) (m : Matrix4.t) :
  perspective fd asp n f = Some m ->
  exists inv, Matrix4.invert (Matrix4.mul OPENGL_TO_WGPU_MATRIX m) = Some inv.
Proof.
  unfold perspective.
  destruct (Rgt_dec (fd * (PI / 180)) 0) as [H1|]; [|discriminate].
  destruct (Rlt_dec (fd * (PI / 180)) PI) as [H2|]; [|discriminate].
  destruct (Req_dec_T (Rabs asp) 0) as [|H3]; [discriminate|].
  destruct (Rgt_dec n 0) as [H4|]; [|discriminate].
  destruct (Rgt_dec f 0) as [H5|]; [|discriminate].
  destruct (Rgt_dec f n) as [H6|]; [|discriminate].
  intros E; injection E as <-.
  unfold Matrix4.invert.
  match goal with |- context [Req_dec_T ?d 0] => destruct (Req_dec_T d 0) as [Hd|]; [|eauto] end.
  exfalso; rewrite determinant_wgpu_perspective in Hd; revert Hd.
  match goal with |- ?d = 0 -> False => change (d <> 0) end.
  assert (Ht : 0 < tan (fd * (PI / 180) / 2)) by (apply tan_gt_0; lra).
  assert (Ha : asp <> 0) by (intros ->; apply H3; apply Rabs_R0).
  nonzero.
Qed.

Lemma screen_to_view_space_some (cam : Camera) (pos : Vector2.t) (size : PhysicalSize) :
  perspective_ok cam -> exists v, screen_to_view_space cam pos size = Some v.
Proof.
  intros [m Hm]; unfold screen_to_view_space, build_proj_matrix; rewrite Hm.
  destruct (perspective_invertible _ _ _ _ _ Hm) as [inv ->]; eauto.
Qed.

Lemma world_to_screen_space_some (cam : Camera) (pos : Vector3.t) (size : PhysicalSize) :
  perspective_ok cam -> exists v, world_to_screen_space cam pos size = Some v.
Proof.
  intros [m Hm]; unfold world_to_screen_space, build_view_projection_matrix; rewrite Hm; eauto.
Qed.

(** The only effect of the pan: one vector with zero [z] added to eye and target. *)
Lemma adjust_pan_shift (cam : Camera) cursor origin modifier size (cam' : Camera) :
  adjust_pan_with_cursor_position cam cursor origin modifier size = Some cam' ->
  exists v, Vector3.z v = 0 /\
    cam' = set_eye_target cam (Vector3.add (eye cam) v) (Vector3.add (target cam) v).
Proof.
  unfold adjust_pan_with_cursor_position.
  destruct (screen_to_view_space cam _ size) as [cv|]; [|discriminate].
  destruct (screen_to_view_space cam origin size) as [ov|]; [|discriminate].
  intros E; injection E as <-.
  eexists; split; [|reflexivity].
  cbn [Vector3.scale Vector3.z]; ring.
Qed.

Lemma adjust_pan_some (cam : Camera) cursor origin modifier size :
  perspective_ok cam ->
  exists cam', adjust_pan_with_cursor_position cam cursor origin modifier size = Some cam'.
Proof.
  intros Hp; unfold adjust_pan_with_cursor_position.
  destruct (screen_to_view_space_some cam
             (Vector2.vec2 (pos_x cursor) (pos_y cursor)) size Hp) as [cv ->].
  destruct (screen_to_view_space_some cam origin size Hp) as [ov ->]; eauto.
Qed.

Lemma perspective_ok_set_eye_target (cam : Camera) (e t : Vector3.t) :
  perspective_ok cam -> perspective_ok (set_eye_target cam e t).
Proof. exact (fun H => H). Qed.

Lemma vector3_sub_add (a b v : Vector3.t) :
  Vector3.sub (Vector3.add a v) (Vector3.add b v) = Vector3.sub a b.
Proof. destruct a, b, v; unfold Vector3.sub, Vector3.add; cbn; f_equal; ring. Qed.

Lemma perspective_ok_camera0 : perspective_ok camera0.
Proof.
  unfold perspective_ok, perspective; cbn [fovy aspect znear zfar camera0].
  pose proof PI_RGT_0.
  destruct (Rgt_dec (45 * (PI / 180)) 0); [|lra].
  destruct (Rlt_dec (45 * (PI / 180)) PI); [|lra].
  destruct (Req_dec_T (Rabs (800 / 600)) 0) as [E|].
  { rewrite Rabs_pos_eq in E; lra. }
  destruct (Rgt_dec 0.1 0); [|lra].
  destruct (Rgt_dec 100 0); [|lra].
  destruct (Rgt_dec 100 0.1); [|lra].
  eauto.
Qed.

(** ** Pan adjustment *)

(** Claim C9: [adjust_pan_with_cursor_position] adds one vector with zero
    [z] to both eye and target, so [target - eye] and [eye.z] are unchanged. *)
Theorem adjust_pan_keeps_offset_and_zoom (cam : Camera) (cursor : PhysicalPosition)
  (origin : Vector2.t) (modifier : R) (size : PhysicalSize) (cam' : Camera) :
  adjust_pan_with_cursor_position cam cursor origin modifier size = Some cam' ->
  exists v, Vector3.z v = 0 /\
    eye cam' = Vector3.add (eye cam) v /\
    target cam' = Vector3.add (target cam) v /\
    Vector3.sub (target cam') (eye cam') = Vector3.sub (target cam) (eye cam) /\
    Vector3.z (eye cam') = Vector3.z (eye cam).
Proof.
  intros H; destruct (adjust_pan_shift _ _ _ _ _ _ H) as [v [Hz ->]].
  exists v; cbn [eye target set_eye_target].
  repeat split; auto using vector3_sub_add.
  cbn [Vector3.add Vector3.z]; rewrite Hz; ring.
Qed.

Lemma adjust_pan_keeps_offset_and_zoom_witness :
  exists cam', adjust_pan_with_cursor_position camera0 {| pos_x := 100; pos_y := 50 |}
                 (Vector2.vec2 400 300) 0.25 size0 = Some cam' /\
    exists v, Vector3.z v = 0 /\
      eye cam' = Vector3.add (eye camera0) v /\
      target cam' = Vector3.add (target camera0) v /\
      Vector3.sub (target cam') (eye cam') = Vector3.sub (target camera0) (eye camera0) /\
      Vector3.z (eye cam') = Vector3.z (eye camera0).
Proof.
  destruct (adjust_pan_some camera0 {| pos_x := 100; pos_y := 50 |} (Vector2.vec2 400 300)
              0.25 size0 perspective_ok_camera0) as [cam' H].
  exists cam'; split; [exact H|].
  exact (adjust_pan_keeps_offset_and_zoom _ _ _ _ _ _ H).
Defined.

(** ** The zoom step of [update_camera] *)

Lemma zoom_step_applied (c : CameraController) (cam : Camera) (size : PhysicalSize)
  (c' : CameraController) (cam' : Camera) :
  zoom_applies c cam = true ->
  zoom_step c cam size = Some (c', cam') ->
  let cam1 := set_eye_target cam (Vector3.add (eye cam) (zoom_change c cam)) (target cam) in
  c' = set_scroll c 0 /\
  exists origin, world_to_screen_space cam1 (Vector3.vec3 0 0 0) size = Some origin /\
    adjust_pan_with_cursor_position cam1 (cursor_location c) origin (scroll c * 0.25) size
    = Some cam'.
Proof.
  unfold zoom_applies, zoom_step; intros -> H; cbv zeta.
  destruct (world_to_screen_space _ _ size) as [origin|]; [|discriminate].
  destruct (adjust_pan_with_cursor_position _ _ _ _ _) as [cam2|] eqn:E; [|discriminate].
  injection H as <- <-; eauto.
Qed.

Lemma zoom_step_blocked (c : CameraController) (cam : Camera) (size : PhysicalSize) :
  zoom_applies c cam = false -> zoom_step c cam size = Some (c, cam).
Proof. unfold zoom_applies, zoom_step; intros ->; reflexivity. Qed.

Lemma zoom_step_some (c : CameraController) (cam : Camera) (size : PhysicalSize) :
  perspective_ok cam ->
  exists c' cam', zoom_step c cam size = Some (c', cam') /\ perspective_ok cam'.
Proof.
  intros Hp; destruct (zoom_applies c cam) eqn:Hz.
  - unfold zoom_applies in Hz; unfold zoom_step; rewrite Hz.
    set (cam1 := set_eye_target cam _ _).
    assert (Hp1 : perspective_ok cam1) by exact Hp.
    destruct (world_to_screen_space_some cam1 (Vector3.vec3 0 0 0) size Hp1) as [o ->].
    destruct (adjust_pan_some cam1 (cursor_location c) o (scroll c * 0.25) size Hp1)
      as [cam2 E].
    rewrite E; do 2 eexists; split; [reflexivity|].
    destruct (adjust_pan_shift _ _ _ _ _ _ E) as [v [_ ->]]; exact Hp1.
  - rewrite zoom_step_blocked by exact Hz; eauto.
Qed.

Lemma scroll_set_clicked_at (c : CameraController) v : scroll (set_clicked_at c v) = scroll c.
Proof. reflexivity. Qed.

Lemma drag_step_scroll (c : CameraController) (cam : Camera) (size : PhysicalSize)
  (c' : CameraController) (cam' : Camera) :
  drag_step c cam size = Some (c', cam') -> scroll c' = scroll c.
Proof.
  unfold drag_step.
  destruct (is_mouse_pressed c).
  - destruct (mouse_clicked_at c) as [p|].
    + destruct (adjust_pan_with_cursor_position _ _ _ _ _) as [cam1|]; [|discriminate].
      destruct (is_mouse_released _); intros E; injection E as <- <-; reflexivity.
    + destruct (is_mouse_released _); intros E; injection E as <- <-; reflexivity.
  - destruct (is_mouse_released c); intros E; injection E as <- <-; reflexivity.
Qed.

Lemma drag_step_some (c : CameraController) (cam : Camera) (size : PhysicalSize) :
  perspective_ok cam -> exists r, drag_step c cam size = Some r.
Proof.
  intros Hp; unfold drag_step.
  destruct (is_mouse_pressed c).
  - destruct (mouse_clicked_at c) as [p|].
    + destruct (adjust_pan_some cam (cursor_location c) (Vector2.vec2 (pos_x p) (pos_y p))
                  (-1) size Hp) as [cam1 ->].
      destruct (is_mouse_released _); eauto.
    + destruct (is_mouse_released _); eauto.
  - destruct (is_mouse_released c); eauto.
Qed.

Lemma update_camera_some (c : CameraController) (cam : Camera) (size : PhysicalSize) :
  perspective_ok cam -> exists c' cam', update_camera c cam size = Some (c', cam').
Proof.
  intros Hp; unfold update_camera.
  destruct (zoom_step_some c cam size Hp) as [c1 [cam1 [-> Hp1]]].
  destruct (drag_step_some c1 cam1 size Hp1) as [[c2 cam2] ->]; eauto.
Qed.

Lemma update_camera_scroll_step (c : CameraController) (cam : Camera) (size : PhysicalSize)
  (c' : CameraController) (cam' : Camera) :
  update_camera c cam size = Some (c', cam') ->
  scroll c' = if zoom_applies c cam then 0 else scroll c.
Proof.
  unfold update_camera.
  destruct (zoom_step c cam size) as [[c1 cam1]|] eqn:Ez; [|discriminate].
  destruct (drag_step c1 cam1 size) as [[c2 cam2]|] eqn:Ed; [|discriminate].
  intros E; injection E as <- <-.
  rewrite (drag_step_scroll _ _ _ _ _ Ed).
  destruct (zoom_applies c cam) eqn:Hz.
  - destruct (zoom_step_applied _ _ _ _ _ Hz Ez) as [-> _]; reflexivity.
  - rewrite zoom_step_blocked in Ez by exact Hz; injection Ez as <- <-; reflexivity.
Qed.

Lemma zoom_applies_camera_at (dy z : R) :
  0 < dy -> z < 1 -> zoom_applies (controller_scrolled dy) (camera_at z) = false.
Proof.
  intros Hdy Hz; unfold zoom_applies, not_at_scroll_min, not_at_scroll_max; cbn [scroll
    controller_scrolled process_events set_scroll mk fst eye camera_at set_eye_target Vector3.z].
  destruct (Rgt_dec dy 0); [|lra].
  destruct (Rge_dec z 1); [lra|].
  destruct (Rlt_dec dy 0); [lra|].
  reflexivity.
Qed.

(** Claim C1 (as amended): after [update_camera] returns, [scroll] is 0 when
    the zoom was applied and keeps its value when it was not. *)
Theorem update_camera_scroll (c : CameraController) (cam : Camera) (size : PhysicalSize)
  (c' : CameraController) (cam' : Camera) :
  update_camera c cam size = Some (c', cam') ->
  scroll c' = if zoom_applies c cam then 0 else scroll c.
Proof. exact (update_camera_scroll_step c cam size c' cam'). Qed.

Lemma update_camera_scroll_witness :
  exists c' cam', update_camera (controller_scrolled 1) camera0 size0 = Some (c', cam') /\
    scroll c' = if zoom_applies (controller_scrolled 1) camera0 then 0
                else scroll (controller_scrolled 1).
Proof.
  destruct (update_camera_some (controller_scrolled 1) camera0 size0 perspective_ok_camera0)
    as [c' [cam' H]].
  exists c', cam'; split; [exact H|].
  exact (update_camera_scroll _ _ _ _ _ H).
Defined.

(** Claim C1 fails as stated: scrolling in with [eye.z = 0.5] is blocked, and
    [update_camera] returns with [scroll] still 1. *)
Lemma update_camera_blocked_zoom_keeps_scroll :
  exists c' cam', update_camera (controller_scrolled 1) (camera_at 0.5) size0 = Some (c', cam') /\
    scroll c' = 1.
Proof.
  assert (Hp : perspective_ok (camera_at 0.5)) by exact perspective_ok_camera0.
  destruct (update_camera_some (controller_scrolled 1) (camera_at 0.5) size0 Hp) as [c' [cam' H]].
  exists c', cam'; split; [exact H|].
  rewrite (update_camera_scroll_step _ _ _ _ _ H).
  rewrite zoom_applies_camera_at by lra; reflexivity.
Qed.

Lemma zoom_change_z_camera_at (dy z : R) :
  0 < z -> Vector3.z (zoom_change (controller_scrolled dy) (camera_at z)) = - z * 0.1 * dy.
Proof.
  intros Hz; unfold zoom_change, Vector3.normalize, Vector3.magnitude, Vector3.dot.
  cbn [controller_scrolled process_events set_scroll mk fst speed scroll controller0 CameraController_new
       camera_at set_eye_target eye target Vector3.sub Vector3.scale Vector3.x Vector3.y Vector3.z].
  replace ((0 - 0) * (0 - 0) + (0 - 0) * (0 - 0) + (0 - z) * (0 - z)) with (z * z) by ring.
  rewrite sqrt_square by lra.
  replace 0.1 with (/ 10) by lra.
  field; lra.
Qed.

Lemma zoom_applies_scrolled_in (dy z : R) :
  0 < dy -> 1 <= z -> zoom_applies (controller_scrolled dy) (camera_at z) = true.
Proof.
  intros Hdy Hz; unfold zoom_applies, not_at_scroll_min; cbn [scroll
    controller_scrolled process_events set_scroll mk fst eye camera_at set_eye_target Vector3.z].
  destruct (Rgt_dec dy 0); [|lra].
  destruct (Rge_dec z 1); [reflexivity | lra].
Qed.

(** Claim C3 (as amended): with a positive scroll the zoom is blocked exactly
    when the current [eye.z] is below 1; with a negative scroll it is blocked
    exactly when [checked_next_power_of_two] of the prospective [eye.z]
    ([eye.z] plus the delta's [z], cast to [u32]) is [None]. *)
Theorem zoom_blocked_exactly (c : CameraController) (cam : Camera) :
  (0 < scroll c -> (zoom_applies c cam = false <-> Vector3.z (eye cam) < 1)) /\
  (scroll c < 0 ->
     (zoom_applies c cam = false <->
      checked_next_power_of_two
        (f32_as_u32 (Vector3.z (eye cam) + Vector3.z (zoom_change c cam))) = None)).
Proof.
  unfold zoom_applies, not_at_scroll_min, not_at_scroll_max.
  split; intros Hs.
  - destruct (Rgt_dec (scroll c) 0); [|lra].
    destruct (Rlt_dec (scroll c) 0); [lra|].
    destruct (Rge_dec (Vector3.z (eye cam)) 1); cbn; split; intros; try lra; congruence.
  - destruct (Rgt_dec (scroll c) 0); [lra|].
    destruct (Rlt_dec (scroll c) 0); [|lra].
    destruct (checked_next_power_of_two _); cbn; split; congruence.
Qed.

Lemma zoom_blocked_exactly_witness :
  0 < scroll (controller_scrolled 1) /\
  (zoom_applies (controller_scrolled 1) (camera_at 0.5) = false <-> Vector3.z (eye (camera_at 0.5)) < 1).
Proof.
  assert (H : 0 < scroll (controller_scrolled 1)) by (cbn; lra).
  split; [exact H|].
  exact (proj1 (zoom_blocked_exactly (controller_scrolled 1) (camera_at 0.5)) H).
Defined.

(** Claim C3 fails as stated: at [eye.z = 1] a scroll of 5 lines zooms in
    although the resulting [eye.z] is 0.5, below 1. *)
Lemma zoom_in_not_blocked_below_one :
  0 < scroll (controller_scrolled 5) /\
  zoom_applies (controller_scrolled 5) (camera_at 1) = true /\
  Vector3.z (eye (camera_at 1)) + Vector3.z (zoom_change (controller_scrolled 5) (camera_at 1)) < 1.
Proof.
  split; [cbn; lra|].
  split; [apply zoom_applies_scrolled_in; lra|].
  rewrite zoom_change_z_camera_at by lra; cbn; lra.
Qed.

(** Claim C2 (as amended): when the zoom applies, the delta is added to the
    eye only (the target stays), then the pan re-anchors with modifier
    [scroll * 0.25]; so [target - eye] shrinks by the delta. *)
Theorem zoom_moves_eye_only (c : CameraController) (cam : Camera) (size : PhysicalSize)
  (c' : CameraController) (cam' : Camera) :
  zoom_applies c cam = true ->
  zoom_step c cam size = Some (c', cam') ->
  exists mid origin,
    eye mid = Vector3.add (eye cam) (zoom_change c cam) /\
    target mid = target cam /\
    world_to_screen_space mid (Vector3.vec3 0 0 0) size = Some origin /\
    adjust_pan_with_cursor_position mid (cursor_location c) origin (scroll c * 0.25) size
    = Some cam' /\
    Vector3.sub (target cam') (eye cam')
    = Vector3.sub (target cam) (Vector3.add (eye cam) (zoom_change c cam)).
Proof.
  intros Hz E.
  destruct (zoom_step_applied _ _ _ _ _ Hz E) as [_ [origin [Ho Hpan]]].
  exists (set_eye_target cam (Vector3.add (eye cam) (zoom_change c cam)) (target cam)), origin.
  split; [reflexivity | split; [reflexivity | split; [exact Ho | split; [exact Hpan|]]]].
  destruct (adjust_pan_shift _ _ _ _ _ _ Hpan) as [v [_ ->]].
  cbn [eye target set_eye_target]; apply vector3_sub_add.
Qed.

Lemma zoom_moves_eye_only_witness :
  zoom_applies (controller_scrolled 1) (camera_at 4) = true /\
  exists c' cam', zoom_step (controller_scrolled 1) (camera_at 4) size0 = Some (c', cam') /\
  exists mid origin,
    eye mid = Vector3.add (eye (camera_at 4)) (zoom_change (controller_scrolled 1) (camera_at 4)) /\
    target mid = target (camera_at 4) /\
    world_to_screen_space mid (Vector3.vec3 0 0 0) size0 = Some origin /\
    adjust_pan_with_cursor_position mid (cursor_location (controller_scrolled 1)) origin
      (scroll (controller_scrolled 1) * 0.25) size0 = Some cam' /\
    Vector3.sub (target cam') (eye cam')
    = Vector3.sub (target (camera_at 4))
        (Vector3.add (eye (camera_at 4)) (zoom_change (controller_scrolled 1) (camera_at 4))).
Proof.
  assert (Hz : zoom_applies (controller_scrolled 1) (camera_at 4) = true)
    by (apply zoom_applies_scrolled_in; lra).
  split; [exact Hz|].
  destruct (zoom_step_some (controller_scrolled 1) (camera_at 4) size0 perspective_ok_camera0)
    as [c' [cam' [E _]]].
  exists c', cam'; split; [exact E|].
  exact (zoom_moves_eye_only _ _ _ _ _ Hz E).
Defined.

(** Claim C2 fails as stated: scrolling in by one line from the initial
    camera, no camera [mid] with the delta added to both eye and target is
    re-anchored into the camera [zoom_step] returns. *)
Lemma zoom_delta_not_added_to_target :
  ~ (zoom_applies (controller_scrolled 1) (camera_at 4) = true ->
     forall c' cam', zoom_step (controller_scrolled 1) (camera_at 4) size0 = Some (c', cam') ->
     exists mid origin,
       eye mid = Vector3.add (eye (camera_at 4)) (zoom_change (controller_scrolled 1) (camera_at 4)) /\
       target mid = Vector3.add (target (camera_at 4))
                      (zoom_change (controller_scrolled 1) (camera_at 4)) /\
       world_to_screen_space mid (Vector3.vec3 0 0 0) size0 = Some origin /\
       adjust_pan_with_cursor_position mid (cursor_location (controller_scrolled 1)) origin
         (scroll (controller_scrolled 1) * 0.25) size0 = Some cam').
Proof.
  intros H.
  assert (Hz : zoom_applies (controller_scrolled 1) (camera_at 4) = true)
    by (apply zoom_applies_scrolled_in; lra).
  destruct (zoom_step_some (controller_scrolled 1) (camera_at 4) size0 perspective_ok_camera0)
    as [c' [cam' [E _]]].
  destruct (H Hz c' cam' E) as [mid [origin [He [Ht [_ Hpan]]]]].
  destruct (zoom_step_applied _ _ _ _ _ Hz E) as [_ [o2 [_ Hpan2]]].
  destruct (adjust_pan_shift _ _ _ _ _ _ Hpan) as [v [_ Hc1]].
  destruct (adjust_pan_shift _ _ _ _ _ _ Hpan2) as [v2 [_ Hc2]].
  assert (D : Vector3.sub (target mid) (eye mid)
              = Vector3.sub (target (camera_at 4))
                  (Vector3.add (eye (camera_at 4)) (zoom_change (controller_scrolled 1) (camera_at 4)))).
  { transitivity (Vector3.sub (target cam') (eye cam')).
    - rewrite Hc1; cbn [eye target set_eye_target]; symmetry; apply vector3_sub_add.
    - rewrite Hc2; cbn [eye target set_eye_target]; apply vector3_sub_add. }
  rewrite He, Ht in D.
  apply (f_equal Vector3.z) in D.
  revert D; cbn [Vector3.sub Vector3.add Vector3.z].
  rewrite zoom_change_z_camera_at by lra.
  cbn [camera_at set_eye_target eye target Vector3.z]; lra.
Qed.

(** ** Tessellation mesh shape *)

Lemma square_points_length (p1 p2 : Vector2.t) (w : R) (initial : bool) :
  length (square_points p1 p2 w initial) = 2%nat.
Proof. unfold square_points; destruct initial; reflexivity. Qed.

Lemma u16_add_some (a b c : Z) : u16_add a b = Some c -> c = (a + b)%Z.
Proof. unfold u16_add; destruct (_ <=? _)%Z; congruence. Qed.

Lemma u16_mul_some (a b c : Z) : u16_mul a b = Some c -> c = (a * b)%Z /\ (a * b <= u16_MAX)%Z.
Proof.
  unfold u16_mul; destruct (_ <=? _)%Z eqn:E; [|discriminate].
  intros H; injection H as <-; split; [reflexivity | apply Z.leb_le, E].
Qed.

Lemma quad_flat_map_S (k : nat) :
  flat_map quad (seq 0 (S k)) = flat_map quad (seq 0 k) ++ quad k.
Proof. rewrite seq_S, flat_map_app; cbn [flat_map]; rewrite app_nil_r; reflexivity. Qed.

Lemma polynomial_loop_mesh (rest : list Z) (k : nat) (lcur l' : Line) :
  polynomial_loop lcur (combine (seq k (length rest)) rest) = Some l' ->
  (Z.of_nat k <= 32768)%Z ->
  length (vertices lcur) = (if Nat.eqb k 0 then 0 else 2 * (k + 1))%nat ->
  indices lcur = flat_map quad (seq 0 k) ->
  length (vertices l') = (if Nat.eqb (k + length rest) 0 then 0 else 2 * (k + length rest + 1))%nat /\
  indices l' = flat_map quad (seq 0 (k + length rest)).
Proof.
  revert k lcur; induction rest as [|num rest IH]; intros k lcur H Hk Hv Hi;
    cbn [length seq combine polynomial_loop] in *.
  - injection H as <-; rewrite Nat.add_0_r; auto.
  - destruct (u16_mul (usize_as_u16 k) 2) as [off|] eqn:Em; [|discriminate].
    unfold usize_as_u16 in Em; rewrite Z.mod_small in Em by lia.
    destruct (u16_mul_some _ _ _ Em) as [-> Hb]; unfold u16_MAX in Hb.
    match type of H with
    | match next ?l1 _ ?p1 ?p2 with _ => _ end = _ =>
        destruct (next l1 _ p1 p2) as [l2|] eqn:En; [|discriminate];
        set (lk := l1) in En
    end.
    unfold next in En.
    destruct (u16_add _ 1) as [o1|] eqn:E1; [|discriminate].
    destruct (u16_add _ 2) as [o2|] eqn:E2; [|discriminate].
    destruct (u16_add _ 3) as [o3|] eqn:E3; [|discriminate].
    apply u16_add_some in E1, E2, E3; subst o1 o2 o3.
    injection En as <-.
    replace (k + S (length rest))%nat with (S k + length rest)%nat by lia.
    apply (IH (S k) _ H); [lia | |].
    + cbn [vertices set_mesh]; rewrite length_app; cbn [length Nat.eqb].
      subst lk; revert Hv; destruct (Nat.eqb k 0) eqn:Ek; intros Hv; cbn [vertices set_mesh].
      * apply Nat.eqb_eq in Ek; rewrite length_app; try rewrite square_points_length;
        cbn [length]; lia.
      * lia.
    + cbn [indices set_mesh]; subst lk.
      rewrite quad_flat_map_S; unfold quad.
      replace (Z.of_nat (2 * k)) with (Z.of_nat k * 2)%Z by lia.
      destruct (Nat.eqb k 0); cbn [indices set_mesh]; rewrite Hi; reflexivity.
Qed.

Lemma polynomial_loop_some (rest : list Z) (k : nat) (lcur : Line) :
  (Z.of_nat k + Z.of_nat (length rest) <= 32767)%Z ->
  exists l', polynomial_loop lcur (combine (seq k (length rest)) rest) = Some l'.
Proof.
  revert k lcur; induction rest as [|num rest IH]; intros k lcur Hk;
    cbn [length seq combine polynomial_loop] in *; [eauto|].
  unfold usize_as_u16, u16_mul, next, u16_add, u16_MAX.
  rewrite Z.mod_small by lia.
  rewrite (proj2 (Z.leb_le (Z.of_nat k * 2) (2 ^ 16 - 1))) by lia.
  rewrite (proj2 (Z.leb_le (Z.of_nat k * 2 + 1) (2 ^ 16 - 1))) by lia.
  rewrite (proj2 (Z.leb_le (Z.of_nat k * 2 + 2) (2 ^ 16 - 1))) by lia.
  rewrite (proj2 (Z.leb_le (Z.of_nat k * 2 + 3) (2 ^ 16 - 1))) by lia.
  apply IH; lia.
Qed.

Lemma make_polynomial_some (l : Line) (x_min x_max : Z) (nums : list Z) :
  sample_range x_min x_max = Some nums -> (Z.of_nat (length nums) <= 32767)%Z ->
  exists l', make_polynomial l x_min x_max = Some l'.
Proof.
  intros Hs Hn; unfold make_polynomial; rewrite Hs.
  apply polynomial_loop_some; lia.
Qed.

(** Claim C6: when the sample range gives [n >= 1] iterations,
    [make_polynomial] leaves [2 * (n + 1)] vertices and the indices of [n]
    quads, quad [i] being [2i, 2i+1, 2i+3, 2i+2, 2i, 2i+3], all of them
    positions in the vertex list. *)
Theorem make_polynomial_mesh (l l' : Line) (x_min x_max : Z) (nums : list Z) :
  sample_range x_min x_max = Some nums ->
  (1 <= length nums)%nat ->
  make_polynomial l x_min x_max = Some l' ->
  let n := length nums in
  length (vertices l') = (2 * (n + 1))%nat /\
  indices l' = flat_map quad (seq 0 n) /\
  Forall (fun k => 0 <= k < Z.of_nat (length (vertices l')))%Z (indices l').
Proof.
  intros Hs Hn H; cbv zeta.
  unfold make_polynomial in H; rewrite Hs in H.
  destruct (polynomial_loop_mesh nums 0 _ _ H) as [Hv Hi]; try reflexivity; [lia|].
  cbn [Nat.add] in Hv, Hi.
  destruct (Nat.eqb (length nums) 0) eqn:E; [apply Nat.eqb_eq in E; lia|].
  split; [exact Hv | split; [exact Hi|]].
  rewrite Hi, Hv; apply Forall_forall; intros k Hk.
  apply in_flat_map in Hk as [i [Hi' Hk]]; apply in_seq in Hi'.
  unfold quad in Hk; cbn in Hk; lia.
Qed.

Lemma make_polynomial_mesh_witness :
  exists l', make_polynomial line0 0 1 = Some l' /\
    length (vertices l') = 42%nat /\
    indices l' = flat_map quad (seq 0 20) /\
    Forall (fun k => 0 <= k < Z.of_nat (length (vertices l')))%Z (indices l').
Proof.
  assert (Hs : sample_range 0 1 = Some (map Z.of_nat (seq 0 20))) by reflexivity.
  destruct (make_polynomial_some line0 0 1 _ Hs ltac:(cbn; lia)) as [l' E].
  exists l'; split; [exact E|].
  exact (make_polynomial_mesh line0 l' 0 1 _ Hs ltac:(cbn; lia) E).
Defined.

(** * Further properties of the code *)

(** ** Circle mesh of the point markers *)

Lemma zrange_length (a b : Z) : length (zrange a b) = Z.to_nat (b - a).
Proof. unfold zrange; rewrite length_map, length_seq; reflexivity. Qed.

Lemma in_zrange (a b k : Z) : In k (zrange a b) <-> (a <= k < b)%Z.
Proof.
  unfold zrange; rewrite in_map_iff; split.
  - intros [i [<- Hi]]; apply in_seq in Hi; lia.
  - intros Hk; exists (Z.to_nat (k - a)); split; [lia|]; apply in_seq; lia.
Qed.

Lemma fan_indices_ok (is : list Z) :
  Forall (fun i => i + 1 <= u16_MAX)%Z is ->
  fan_indices is = Some (flat_map (fun i => [0; i; i + 1]%Z) is).
Proof.
  induction is as [|i is IH]; intros H; [reflexivity|].
  inversion H as [|? ? Hi Hr]; subst.
  cbn [fan_indices]; unfold u16_add.
  rewrite (proj2 (Z.leb_le _ _) Hi), IH by exact Hr; reflexivity.
Qed.

Lemma Circle_new_some (radius : R) (segs : Z) :
  (0 <= segs <= u16_MAX)%Z ->
  Circle_new radius segs =
  Some {| radius := radius; segments := segs;
          circle_vertices := {| position := (0, 0, 0) |} ::
            map (fun s =>
                   let current_seg := (2 * PI) * (IZR s / IZR segs) in
                   {| position := (radius * cos current_seg, radius * sin current_seg, 0) |})
                (zrange 0 segs);
          circle_indices := [0; segs; 1]%Z ++ flat_map (fun i => [0; i; i + 1]%Z) (zrange 1 segs) |}.
Proof.
  intros Hs; unfold Circle_new.
  rewrite fan_indices_ok; [reflexivity|].
  apply Forall_forall; intros i Hi; apply in_zrange in Hi; lia.
Qed.

(** [Circle::new] with [1 <= segments]: [segments + 1] vertices (the centre
    and one per segment), [3 * segments] indices (the [num_indices] that
    [PointPipeline::new] draws), all of them valid vertex positions; with
    [segments = 0] the three indices [0, 0, 1] name vertex 1, which does not
    exist. *)
Theorem Circle_new_mesh (radius : R) (segs : Z) :
  (0 <= segs <= u16_MAX)%Z ->
  exists c, Circle_new radius segs = Some c /\
    length (circle_vertices c) = (Z.to_nat segs + 1)%nat /\
    length (circle_indices c) = (3 * Z.to_nat (Z.max segs 1))%nat /\
    (Forall (fun k => 0 <= k < Z.of_nat (length (circle_vertices c)))%Z (circle_indices c)
     <-> (1 <= segs)%Z).
Proof.
  intros Hs; rewrite Circle_new_some by exact Hs.
  eexists; split; [reflexivity|]; cbn [circle_vertices circle_indices].
  rewrite length_app; cbn [length]; rewrite length_map, zrange_length.
  split; [lia|].
  split.
  - rewrite flat_map_constant_length with (c := 3%nat) by reflexivity.
    rewrite zrange_length; lia.
  - split.
    + intros Hf; inversion Hf as [|? ? _ Hf1]; inversion Hf1 as [|? ? _ Hf2];
        inversion Hf2 as [|? ? Hf3 _]; lia.
    + intros H1; apply Forall_app; split.
      * repeat constructor; lia.
      * apply Forall_forall; intros k Hk.
        apply in_flat_map in Hk as [i [Hi Hk]]; apply in_zrange in Hi.
        cbn in Hk; lia.
Qed.

Lemma Circle_new_mesh_witness :
  (0 <= 32 <= u16_MAX)%Z /\
  exists c, Circle_new 0.005 32 = Some c /\
    length (circle_vertices c) = (Z.to_nat 32 + 1)%nat /\
    length (circle_indices c) = (3 * Z.to_nat (Z.max 32 1))%nat /\
    (Forall (fun k => 0 <= k < Z.of_nat (length (circle_vertices c)))%Z (circle_indices c)
     <-> (1 <= 32)%Z).
Proof.
  assert (H : (0 <= 32 <= u16_MAX)%Z) by (unfold u16_MAX; lia).
  split; [exact H|].
  exact (Circle_new_mesh 0.005 32 H).
Defined.

(** [Circle::new] places every vertex but the first (the centre) on the
    circle of the given radius, in the plane [z = 0]. *)
Theorem Circle_new_rim (radius : R) (segs : Z) (c : Circle) :
  Circle_new radius segs = Some c ->
  exists rim, circle_vertices c = {| position := (0, 0, 0) |} :: rim /\
    length rim = Z.to_nat segs /\
    Forall (fun v => let '(x, y, z) := position v in
                     x * x + y * y = radius * radius /\ z = 0) rim.
Proof.
  unfold Circle_new; destruct (fan_indices _) as [fan|]; [|discriminate].
  intros E; injection E as <-; cbn [circle_vertices].
  eexists; split; [reflexivity|]; split.
  - rewrite length_map, zrange_length; lia.
  - apply Forall_forall; intros v Hv; apply in_map_iff in Hv as [s [<- _]]; cbn.
    split; [|reflexivity].
    match goal with |- context [cos ?t] => pose proof (sin2_cos2 t) as Hsc end.
    unfold Rsqr in Hsc.
    transitivity (radius * radius * (sin (2 * PI * (IZR s / IZR segs)) * sin (2 * PI * (IZR s / IZR segs))
                                     + cos (2 * PI * (IZR s / IZR segs)) * cos (2 * PI * (IZR s / IZR segs))));
      [ring | rewrite Hsc; ring].
Qed.

Lemma Circle_new_rim_witness :
  exists c, Circle_new 0.005 32 = Some c /\
  exists rim, circle_vertices c = {| position := (0, 0, 0) |} :: rim /\
    length rim = Z.to_nat 32 /\
    Forall (fun v => let '(x, y, z) := position v in
                     x * x + y * y = 0.005 * 0.005 /\ z = 0) rim.
Proof.
  assert (H : (0 <= 32 <= u16_MAX)%Z) by (unfold u16_MAX; lia).
  eexists; split; [apply (Circle_new_some 0.005 32 H)|].
  apply Circle_new_rim; apply (Circle_new_some 0.005 32 H).
Defined.

(** ** Ribbon geometry *)

Lemma sqrt_scale (x u : R) : sqrt (x * x * (1 + u * u)) = Rabs x * sqrt (1 + u * u).
Proof.
  rewrite sqrt_mult_alt by nra.
  f_equal; apply (sqrt_Rsqr_abs x).
Qed.

Lemma cos_minus_PI (a : R) : cos (a - PI) = - cos a.
Proof. rewrite cos_minus, cos_PI, sin_PI; ring. Qed.

Lemma sin_minus_PI (a : R) : sin (a - PI) = - sin a.
Proof. rewrite sin_minus, cos_PI, sin_PI; ring. Qed.

(** [atan2 y x] is the angle of the point [(x, y)]. *)
Lemma atan2_cos_sin (y x : R) :
  (x <> 0 \/ y <> 0) ->
  cos (atan2 y x) = x / sqrt (x * x + y * y) /\ sin (atan2 y x) = y / sqrt (x * x + y * y).
Proof.
  intros Hxy; unfold atan2.
  assert (Hpos : 0 < sqrt (x * x + y * y)).
  { apply sqrt_lt_R0; destruct Hxy; nra. }
  destruct (Rgt_dec x 0) as [Hx|Hx].
  - assert (Hs : 0 < sqrt (1 + y / x * (y / x))) by (apply sqrt_lt_R0; nra).
    replace (x * x + y * y) with (x * x * (1 + y / x * (y / x))) by (field; lra).
    rewrite sqrt_scale, Rabs_pos_eq by lra.
    rewrite cos_atan, sin_atan; unfold Rsqr.
    split; field; lra.
  - destruct (Rlt_dec x 0) as [Hx'|Hx'].
    + assert (Hs : 0 < sqrt (1 + y / x * (y / x))) by (apply sqrt_lt_R0; nra).
      replace (x * x + y * y) with (x * x * (1 + y / x * (y / x))) by (field; lra).
      rewrite sqrt_scale, Rabs_left by lra.
      destruct (Rge_dec y 0).
      * rewrite neg_cos, neg_sin, cos_atan, sin_atan; unfold Rsqr.
        split; field; lra.
      * rewrite cos_minus_PI, sin_minus_PI, cos_atan, sin_atan; unfold Rsqr.
        split; field; lra.
    + assert (x = 0) by lra; subst x.
      replace (0 * 0 + y * y) with (y * y) by ring.
      assert (Hy : sqrt (y * y) = Rabs y) by apply (sqrt_Rsqr_abs y).
      rewrite Hy in *.
      destruct (Rgt_dec y 0).
      * rewrite Rabs_pos_eq by lra; rewrite cos_PI2, sin_PI2.
        split; field; lra.
      * destruct (Rlt_dec y 0); [|lra].
        rewrite Rabs_left by lra; rewrite cos_neg, sin_neg, cos_PI2, sin_PI2.
        split; field; lra.
Qed.

(** The two vertices [square_points] emits are symmetric about the centre
    ([p1] when [initial], [p2] otherwise); the offset to them is
    perpendicular to the segment [p1 p2] and its length is [|width|]: the
    ribbon has width [2 |width|] across the segment. *)
Theorem square_points_perpendicular (p1 p2 : Vector2.t) (width : R) (initial : bool) :
  let c := if initial then p1 else p2 in
  exists ox oy,
    square_points p1 p2 width initial =
      [ {| position := (Vector2.x c + ox, Vector2.y c + oy, 0) |};
        {| position := (Vector2.x c - ox, Vector2.y c - oy, 0) |} ] /\
    ox * (Vector2.x p1 - Vector2.x p2) + oy * (Vector2.y p1 - Vector2.y p2) = 0 /\
    ox * ox + oy * oy = width * width.
Proof.
  cbv zeta.
  set (dx := Vector2.x p1 - Vector2.x p2); set (dy := Vector2.y p1 - Vector2.y p2).
  exists (cos (atan2 dx dy) * width), (- (sin (atan2 dx dy) * width)).
  split; [|split].
  - unfold square_points; fold dx dy.
    destruct initial; unfold Rminus; rewrite Ropp_involutive; reflexivity.
  - destruct (Req_dec_T dx 0) as [Ex|Ex]; [destruct (Req_dec_T dy 0) as [Ey|Ey]|].
    + rewrite Ex, Ey; ring.
    + destruct (atan2_cos_sin dx dy (or_introl Ey)) as [-> ->]; field.
      apply Rgt_not_eq, sqrt_lt_R0; nra.
    + destruct (atan2_cos_sin dx dy (or_intror Ex)) as [-> ->]; field.
      apply Rgt_not_eq, sqrt_lt_R0; nra.
  - pose proof (sin2_cos2 (atan2 dx dy)) as H; unfold Rsqr in H.
    transitivity (width * width * (sin (atan2 dx dy) * sin (atan2 dx dy)
                                   + cos (atan2 dx dy) * cos (atan2 dx dy))); [ring|].
    rewrite H; ring.
Qed.

(** ** Point instances *)

Ltac vec_eq :=
  repeat match goal with
  | |- Matrix4.from_cols _ _ _ _ = Matrix4.from_cols _ _ _ _ => f_equal
  | |- Vector4.vec4 _ _ _ _ = Vector4.vec4 _ _ _ _ => f_equal
  | |- Vector3.vec3 _ _ _ = Vector3.vec3 _ _ _ => f_equal
  | |- Vector2.vec2 _ _ = Vector2.vec2 _ _ => f_equal
  end; try ring.




(** ** Sample ranges of the tessellator *)

Ltac unfold_i32 :=
  unfold i32_saturating_add, i32_saturating_abs, i32_saturating_mul, sat_i32,
    make_polynomial_unit, i32_MIN, i32_MAX in *.

(** [make_polynomial] over an empty range ([x_max <= x_min]) clears the
    mesh, except in two cases where it panics: [x_min = x_max = 0], where
    the step size is 0 and [step_by(0)] panics, and [x_max = i32::MIN],
    whose [abs] overflows. *)
Theorem make_polynomial_empty_range (l : Line) (x_min x_max : Z) :
  (i32_MIN <= x_max <= x_min)%Z -> (x_min <= i32_MAX)%Z ->
  make_polynomial l x_min x_max =
    if (Z.eqb x_min 0 && Z.eqb x_max 0) || Z.eqb x_max i32_MIN then None
    else Some (set_mesh l [] []).
Proof.
  intros Hr Hm.
  unfold make_polynomial, sample_range, i32_abs.
  destruct (x_max =? i32_MIN)%Z eqn:Emin; [rewrite Bool.orb_true_r; reflexivity|].
  rewrite Bool.orb_false_r; apply Z.eqb_neq in Emin.
  unfold step_by_range, step_of.
  set (s := i32_saturating_add (Z.abs x_max) (i32_saturating_abs x_min)).
  destruct (s <=? 0)%Z eqn:Es; cbn [Z.eqb].
  - apply Z.leb_le in Es; subst s; unfold_i32.
    replace x_min with 0%Z by lia; replace x_max with 0%Z by lia; reflexivity.
  - apply Z.leb_gt in Es.
    assert (Hq : (0 < (s + 39) / 40)%Z) by (apply Z.div_str_pos; lia).
    destruct ((s + 39) / 40 =? 0)%Z eqn:Eq; [apply Z.eqb_eq in Eq; lia|].
    replace (Z.eqb x_min 0 && Z.eqb x_max 0) with false.
    2:{ subst s; unfold_i32; symmetry; apply Bool.andb_false_iff.
        destruct (Z.eq_dec x_min 0); [right; apply Z.eqb_neq; lia | left; apply Z.eqb_neq; lia]. }
    replace (i32_saturating_mul x_min make_polynomial_unit <? i32_saturating_mul x_max make_polynomial_unit)%Z
      with false by (symmetry; apply Z.ltb_ge; unfold_i32; lia).
    reflexivity.
Qed.

Lemma make_polynomial_empty_range_witness :
  (i32_MIN <= 0 <= 0)%Z /\ (0 <= i32_MAX)%Z /\
  make_polynomial line0 0 0 =
    if (Z.eqb 0 0 && Z.eqb 0 0) || Z.eqb 0 i32_MIN then None else Some (set_mesh line0 [] []).
Proof.
  assert (H1 : (i32_MIN <= 0 <= 0)%Z) by (unfold i32_MIN; lia).
  assert (H2 : (0 <= i32_MAX)%Z) by (unfold i32_MAX; lia).
  split; [exact H1 | split; [exact H2|]].
  exact (make_polynomial_empty_range line0 0 0 H1 H2).
Defined.





(** ** [update_equations] *)

Lemma Int_part_small (u : R) : 0 <= u < 1 -> Int_part u = 0%Z.
Proof.
  intros Hu; destruct (base_Int_part u) as [H1 H2].
  assert (-1 < Int_part u < 1)%Z by (split; apply lt_IZR; cbn; lra).
  lia.
Qed.

Lemma f32_as_i32_small (v : R) : -1 < v < 1 -> f32_as_i32 v = 0%Z.
Proof.
  intros Hv; unfold f32_as_i32.
  destruct (Rge_dec v 0).
  - rewrite Int_part_small by lra; reflexivity.
  - rewrite Int_part_small by lra; reflexivity.
Qed.

(** [update_equations] panics when the camera is close enough to the
    [x = 0] line: if [eye.x -/+ 1.5 * eye.z] both lie strictly between -1
    and 1, both bounds truncate to 0 and [make_polynomial(0, 0)] hits
    [step_by(0)]; this happens whenever there is at least one line. *)
Theorem update_equations_panics_near_origin (lines : list Line) (cam : Camera) :
  lines <> [] ->
  -1 < - (Vector3.z (eye cam) * 1.5) + Vector3.x (eye cam) < 1 ->
  -1 < Vector3.z (eye cam) * 1.5 + Vector3.x (eye cam) < 1 ->
  update_equations lines cam = None.
Proof.
  intros Hl H1 H2; destruct lines as [|l rest]; [congruence|].
  unfold update_equations; cbv zeta.
  rewrite (f32_as_i32_small _ H1), (f32_as_i32_small _ H2).
  reflexivity.
Qed.

Lemma update_equations_panics_near_origin_witness :
  [line0] <> [] /\
  -1 < - (Vector3.z (eye (camera_at 0.5)) * 1.5) + Vector3.x (eye (camera_at 0.5)) < 1 /\
  -1 < Vector3.z (eye (camera_at 0.5)) * 1.5 + Vector3.x (eye (camera_at 0.5)) < 1 /\
  update_equations [line0] (camera_at 0.5) = None.
Proof.
  assert (H0 : [line0] <> []) by discriminate.
  assert (H1 : -1 < - (Vector3.z (eye (camera_at 0.5)) * 1.5) + Vector3.x (eye (camera_at 0.5)) < 1)
    by (cbn; lra).
  assert (H2 : -1 < Vector3.z (eye (camera_at 0.5)) * 1.5 + Vector3.x (eye (camera_at 0.5)) < 1)
    by (cbn; lra).
  split; [exact H0 | split; [exact H1 | split; [exact H2|]]].
  exact (update_equations_panics_near_origin [line0] (camera_at 0.5) H0 H1 H2).
Defined.

(** ** [State::resize] *)




(** ** Projections of the camera *)
















(** ** Composition of the camera controller's steps *)

Lemma pan_by_zero (cam : Camera) : pan_by cam (Vector3.vec3 0 0 0) = cam.
Proof.
  destruct cam as [[] [] up0 a f n zf]; unfold pan_by, set_eye_target, Vector3.add; cbn.
  f_equal; vec_eq.
Qed.

Lemma pan_by_pan_by (cam : Camera) (v w : Vector3.t) :
  pan_by (pan_by cam v) w = pan_by cam (Vector3.add v w).
Proof.
  destruct cam as [[] [] up0 a f n zf], v, w; unfold pan_by, set_eye_target, Vector3.add; cbn.
  f_equal; vec_eq.
Qed.

Lemma adjust_pan_shape (cam cam' : Camera) cursor origin modifier size :
  adjust_pan_with_cursor_position cam cursor origin modifier size = Some cam' ->
  exists v, Vector3.z v = 0 /\ cam' = pan_by cam v.
Proof.
  unfold adjust_pan_with_cursor_position.
  destruct (screen_to_view_space cam _ size); [|discriminate].
  destruct (screen_to_view_space cam origin size); [|discriminate].
  intros E; injection E as <-.
  eexists; split; [|reflexivity]; cbn; ring.
Qed.

Lemma zoom_step_shape (c c' : CameraController) (cam cam' : Camera) size :
  zoom_step c cam size = Some (c', cam') ->
  c' = (if zoom_applies c cam then set_scroll c 0 else c) /\
  exists v, Vector3.z v = 0 /\ cam' = pan_by (zoomed c cam) v.
Proof.
  unfold zoom_step, zoomed; fold (zoom_applies c cam).
  destruct (zoom_applies c cam).
  - destruct (world_to_screen_space _ _ size); [|discriminate].
    destruct (adjust_pan_with_cursor_position _ _ _ _ size) eqn:Ea; [|discriminate].
    intros E; injection E as <- <-.
    split; [reflexivity|]; exact (adjust_pan_shape _ _ _ _ _ _ Ea).
  - intros E; injection E as <- <-.
    split; [reflexivity|]; exists (Vector3.vec3 0 0 0); split; [reflexivity|].
    symmetry; apply pan_by_zero.
Qed.

Lemma drag_step_shape (c c' : CameraController) (cam cam' : Camera) size :
  drag_step c cam size = Some (c', cam') ->
  c' = set_clicked_at c (clicked_after c) /\
  exists v, Vector3.z v = 0 /\ cam' = pan_by cam v.
Proof.
  destruct c as [sp cl mca u d l r mp mr sc].
  unfold drag_step, clicked_after; cbn [is_mouse_pressed mouse_clicked_at is_mouse_released
    cursor_location].
  assert (H0 : exists v, Vector3.z v = 0 /\ cam = pan_by cam v)
    by (exists (Vector3.vec3 0 0 0); split; [reflexivity|]; symmetry; apply pan_by_zero).
  destruct mp.
  - destruct mca as [p|].
    + destruct (adjust_pan_with_cursor_position _ _ _ _ size) eqn:Ea; [|discriminate].
      apply adjust_pan_shape in Ea.
      destruct mr; intros E; injection E as <- <-; split; auto.
    + destruct mr; intros E; injection E as <- <-; split; auto.
  - destruct mr; intros E; injection E as <- <-; split; auto.
Qed.

Lemma key_step_closed (c : CameraController) (cam : Camera) :
  let s := speed c * Vector3.z (eye cam) in
  key_step c cam
  = pan_by cam (Vector3.vec3 (s * (flag (is_right_pressed c) - flag (is_left_pressed c)))
                             (s * (flag (is_up_pressed c) - flag (is_down_pressed c))) 0).
Proof.
  cbv zeta; unfold key_step.
  destruct cam as [[ex ey ez] [tx ty tz] up0 a f n zf].
  destruct (is_up_pressed c), (is_down_pressed c), (is_left_pressed c), (is_right_pressed c);
    unfold flag, pan_by, set_eye_target, shift, Vector3.add; cbn; f_equal; vec_eq.
Qed.

Lemma update_camera_shape (c c' : CameraController) (cam cam' : Camera) size :
  update_camera c cam size = Some (c', cam') ->
  c' = set_clicked_at (if zoom_applies c cam then set_scroll c 0 else c) (clicked_after c) /\
  exists v, Vector3.z v = 0 /\ cam' = pan_by (zoomed c cam) v.
Proof.
  unfold update_camera.
  destruct (zoom_step c cam size) as [[c1 cam1]|] eqn:Ez; [|discriminate].
  destruct (drag_step c1 cam1 size) as [[c2 cam2]|] eqn:Ed; [|discriminate].
  intros E; injection E as <- <-.
  apply zoom_step_shape in Ez as [-> [v1 [Hv1 ->]]].
  apply drag_step_shape in Ed as [-> [v2 [Hv2 ->]]].
  split.
  - destruct (zoom_applies c cam); reflexivity.
  - rewrite key_step_closed, !pan_by_pan_by.
    eexists; split; [|reflexivity].
    unfold Vector3.add; cbn [Vector3.z]; rewrite Hv1, Hv2; ring.
Qed.

Lemma magnitude_sub_nonzero (a b : Vector3.t) :
  a <> b -> Vector3.magnitude (Vector3.sub a b) <> 0.
Proof.
  intros Hab Hm; apply Hab.
  destruct a as [ax ay az], b as [bx by0 bz].
  unfold Vector3.magnitude, Vector3.dot, Vector3.sub in Hm; cbn in Hm.
  pose proof (Rle_0_sqr (ax - bx)); pose proof (Rle_0_sqr (ay - by0));
    pose proof (Rle_0_sqr (az - bz)); unfold Rsqr in *.
  apply sqrt_eq_0 in Hm; [|lra].
  assert (Hx : (ax - bx) * (ax - bx) = 0) by lra.
  assert (Hy : (ay - by0) * (ay - by0) = 0) by lra.
  assert (Hz : (az - bz) * (az - bz) = 0) by lra.
  apply Rmult_integral in Hx, Hy, Hz.
  f_equal; lra.
Qed.

Lemma zoomed_offset (c : CameraController) (cam : Camera) :
  target cam <> eye cam ->
  Vector3.sub (target (zoomed c cam)) (eye (zoomed c cam))
  = Vector3.scale (Vector3.sub (target cam) (eye cam))
      (if zoom_applies c cam then 1 - speed c * scroll c else 1).
Proof.
  intros Hte; pose proof (magnitude_sub_nonzero _ _ Hte) as Hm.
  unfold zoomed, zoom_change, Vector3.normalize.
  revert Hm; generalize (Vector3.magnitude (Vector3.sub (target cam) (eye cam))); intros m Hm.
  destruct (zoom_applies c cam); cbn;
    destruct (target cam), (eye cam); unfold Vector3.sub, Vector3.add, Vector3.scale; cbn;
    vec_eq; field; exact Hm.
Qed.



(** ** Further properties of the camera controller *)







(** [key_step] applies the four held arrow keys one after the other; the
    result is a single pan by [speed * eye.z] times (right - left, up - down),
    so opposite keys cancel and the eye's height is never changed. *)
Theorem key_step_net_pan (c : CameraController) (cam : Camera) :
  let s := speed c * Vector3.z (eye cam) in
  key_step c cam
  = pan_by cam (Vector3.vec3 (s * (flag (is_right_pressed c) - flag (is_left_pressed c)))
                             (s * (flag (is_up_pressed c) - flag (is_down_pressed c))) 0).
Proof. exact (key_step_closed c cam). Qed.

(** Over one [update_camera] frame the controller changes only in its scroll
    (reset to zero when the zoom ran) and its mouse anchor, which ends
    cleared after a release, at the cursor while the button is held, and
    unchanged otherwise. *)
Theorem update_camera_controller (c c' : CameraController) (cam cam' : Camera)
  (size : PhysicalSize) :
  update_camera c cam size = Some (c', cam') ->
  c' = set_clicked_at (if zoom_applies c cam then set_scroll c 0 else c) (clicked_after c).
Proof. intros H; apply update_camera_shape in H as [H _]; exact H. Qed.

Lemma update_camera_controller_witness :
  exists c' cam',
    update_camera (controller_scrolled 1) camera0 size0 = Some (c', cam') /\
    c' = set_clicked_at (if zoom_applies (controller_scrolled 1) camera0
                         then set_scroll (controller_scrolled 1) 0 else controller_scrolled 1)
           (clicked_after (controller_scrolled 1)).
Proof.
  destruct (update_camera_some (controller_scrolled 1) camera0 size0 perspective_ok_camera0)
    as [c' [cam' H]].
  exists c', cam'; split; [exact H|].
  exact (update_camera_controller _ _ _ _ _ H).
Defined.

(** Over one [update_camera] frame the camera's up vector, aspect ratio, field
    of view and clip planes are unchanged, and so is the height of the target;
    when target and eye differ, the offset [target - eye] keeps its direction
    and is scaled by [1 - speed * scroll] when the zoom runs (by [1]
    otherwise), since every pan moves eye and target together. *)
Theorem update_camera_camera (c c' : CameraController) (cam cam' : Camera)
  (size : PhysicalSize) :
  update_camera c cam size = Some (c', cam') ->
  up cam' = up cam /\ aspect cam' = aspect cam /\ fovy cam' = fovy cam /\
  znear cam' = znear cam /\ zfar cam' = zfar cam /\
  Vector3.z (target cam') = Vector3.z (target cam) /\
  (target cam <> eye cam ->
   Vector3.sub (target cam') (eye cam')
   = Vector3.scale (Vector3.sub (target cam) (eye cam))
       (if zoom_applies c cam then 1 - speed c * scroll c else 1)).
Proof.
  intros H; apply update_camera_shape in H as [_ [v [Hv ->]]].
  assert (Hz : target (zoomed c cam) = target cam /\ up (zoomed c cam) = up cam /\
               aspect (zoomed c cam) = aspect cam /\ fovy (zoomed c cam) = fovy cam /\
               znear (zoomed c cam) = znear cam /\ zfar (zoomed c cam) = zfar cam)
    by (unfold zoomed; destruct (zoom_applies c cam); repeat split).
  destruct Hz as [Ht [Hu [Ha [Hf [Hn Hfar]]]]].
  unfold pan_by, set_eye_target; cbn [up aspect fovy znear zfar target eye].
  rewrite Hu, Ha, Hf, Hn, Hfar.
  split; [reflexivity | split; [reflexivity | split; [reflexivity | split; [reflexivity |
    split; [reflexivity|]]]]].
  split; [rewrite Ht; unfold Vector3.add; cbn [Vector3.z]; rewrite Hv; ring|].
  intros Hte; rewrite <- (zoomed_offset c cam Hte).
  destruct (target (zoomed c cam)), (eye (zoomed c cam)), v;
    unfold Vector3.sub, Vector3.add; cbn; vec_eq.
Qed.

Lemma update_camera_camera_witness :
  exists c' cam',
    update_camera (controller_scrolled 1) camera0 size0 = Some (c', cam') /\
    up cam' = up camera0 /\ aspect cam' = aspect camera0 /\ fovy cam' = fovy camera0 /\
    znear cam' = znear camera0 /\ zfar cam' = zfar camera0 /\
    Vector3.z (target cam') = Vector3.z (target camera0) /\
    (target camera0 <> eye camera0 ->
     Vector3.sub (target cam') (eye cam')
     = Vector3.scale (Vector3.sub (target camera0) (eye camera0))
         (if zoom_applies (controller_scrolled 1) camera0
          then 1 - speed (controller_scrolled 1) * scroll (controller_scrolled 1) else 1)).
Proof.
  destruct (update_camera_some (controller_scrolled 1) camera0 size0 perspective_ok_camera0)
    as [c' [cam' H]].
  exists c', cam'; split; [exact H|].
  exact (update_camera_camera _ _ _ _ _ H).
Defined.



(** [process_events] never changes the controller's speed or its mouse
    anchor, and an event it reports as not consumed leaves the controller
    unchanged. *)
Theorem process_events_frame (c : CameraController) (e : WindowEvent) :
  let '(c', consumed) := process_events c e in
  speed c' = speed c /\ mouse_clicked_at c' = mouse_clicked_at c /\
  (consumed = false -> c' = c).
Proof.
  destruct e as [st [k|] | [dx dy|dx dy] | px py | st b |]; cbn;
    try destruct k; try destruct b; cbn; repeat split; try discriminate; auto.
Qed.
